(** * bloomflt: a Bloom filter over a big-integer bit set

    A shallow embedding of the Go package [bloomflt] (quasoft/bloomflt) and
    the properties its specification states about it.

    Conventions of the embedding.
    - Go's [int] is the 64-bit signed integer of the amd64 and arm64 targets
      (the comparison [m > math.MaxInt32] in [New] can only succeed there);
      values are carried as [Z] and every conversion writes its wrap-around
      out.  [uint32] values are [Z] in [0, 2^32).
    - [[]byte] is [list byte]; [string] is [String.string], converted with
      [list_byte_of_string] as [[]byte(s)] does.
    - [*big.Int] used as a bit set is [Z] with [Z.setbit] and [Z.testbit].
    - a run-time panic is the [Panic] case of [result]. *)

From Stdlib Require Import ZArith List Lia Bool String.
From coqutil Require Import Byte Word.LittleEndianList Z.bitblast.
Import ListNotations.
Local Open Scope Z_scope.

(** ** Run-time panics *)

Inductive panic : Type :=
| DivideByZero      (* runtime error: integer divide by zero *)
| NegativeBitIndex. (* big: negative bit index *)

Inductive result (A : Type) : Type :=
| Ok (a : A)
| Panic (p : panic).

Arguments Ok {A} a.
Arguments Panic {A} p.

Definition bind {A B : Type} (r : result A) (f : A -> result B) : result B :=
  match r with
  | Ok a => f a
  | Panic p => Panic p
  end.

Notation "x <- r ;; k" := (bind r (fun x => k))
  (at level 61, r at next level, right associativity).

(** [for h := 0; h < n; h++ { body }] over a state [S]; the body may panic,
    which leaves the loop at once. *)
Fixpoint for_from {S : Type} (fuel : nat) (h : Z)
         (body : Z -> S -> result S) (s : S) : result S :=
  match fuel with
  | O => Ok s
  | Datatypes.S fuel' => s' <- body h s ;; for_from fuel' (h + 1) body s'
  end.

Definition for_range {S : Type} (n : Z) (body : Z -> S -> result S) (s : S)
  : result S :=
  for_from (Z.to_nat n) 0 body s.

(** ** Machine integers *)

Definition MaxInt32 : Z := 2 ^ 31 - 1.

Definition wrap32 (z : Z) : Z := z mod 2 ^ 32.

(** The conversion [uint32(x)] of an [int]: the low 32 bits. *)
Definition uint32_of_int (x : Z) : Z := wrap32 x.

(** The conversion [int(x)] of a [uint32]: every value fits in 64 bits. *)
Definition int_of_uint32 (x : Z) : Z := x.

Definition add32 (a b : Z) : Z := wrap32 (a + b).
Definition mul32 (a b : Z) : Z := wrap32 (a * b).
Definition xor32 (a b : Z) : Z := Z.lxor a b.
Definition not32 (a : Z) : Z := Z.lxor a (Z.ones 32).

(** [a % b] on [uint32]: panics when the divisor is zero. *)
Definition rem32 (a b : Z) : result Z :=
  if b =? 0 then Panic DivideByZero else Ok (a mod b).

(** ** math/big: the two bit operations the filter uses *)

(** [z.SetBit(x, i, 1)]. *)
Definition SetBit (x i : Z) : result Z :=
  if i <? 0 then Panic NegativeBitIndex else Ok (Z.setbit x i).

(** [x.Bit(i)]. *)
Definition Bit (x i : Z) : result Z :=
  if i <? 0 then Panic NegativeBitIndex else Ok (Z.b2z (Z.testbit x i)).

(** ** hash/fnv: 32-bit FNV-1a *)

Module fnv.
Definition offset32 : Z := 2166136261.
Definition prime32 : Z := 16777619.

(** The digest is the running hash. *)
Definition New32a : Z := offset32.

Definition Write (s : Z) (data : list byte) : Z :=
  fold_left (fun hash c => mul32 (xor32 hash (byte.unsigned c)) prime32)
            data s.

Definition Sum32 (s : Z) : Z := s.
End fnv.

(** ** hash/crc32: CRC-32 with the IEEE polynomial *)

Module crc32.
(** The IEEE polynomial, reversed. *)
Definition IEEE : Z := 3988292384. (* 0xedb88320 *)

Definition table_step (crc : Z) : Z :=
  if Z.testbit crc 0 then xor32 (Z.shiftr crc 1) IEEE else Z.shiftr crc 1.

(** Entry [i] of the 256-entry table: eight steps from [uint32(i)]. *)
Definition IEEETable (i : Z) : Z :=
  Nat.iter 8 table_step i.

Definition update (crc : Z) (p : list byte) : Z :=
  not32 (fold_left
           (fun crc v =>
              xor32 (IEEETable (xor32 (crc mod 2 ^ 8) (byte.unsigned v)))
                    (Z.shiftr crc 8))
           p (not32 crc)).

Definition NewIEEE : Z := 0.
Definition Write (crc : Z) (p : list byte) : Z := update crc p.
Definition Sum32 (crc : Z) : Z := crc.
End crc32.

(** ** encoding/binary: little-endian stores *)

Module LittleEndian.
Definition PutUint32 (v : Z) : list byte :=
  [ byte.of_Z v; byte.of_Z (Z.shiftr v 8);
    byte.of_Z (Z.shiftr v 16); byte.of_Z (Z.shiftr v 24) ].

Definition PutUint64 (v : Z) : list byte :=
  [ byte.of_Z v; byte.of_Z (Z.shiftr v 8);
    byte.of_Z (Z.shiftr v 16); byte.of_Z (Z.shiftr v 24);
    byte.of_Z (Z.shiftr v 32); byte.of_Z (Z.shiftr v 40);
    byte.of_Z (Z.shiftr v 48); byte.of_Z (Z.shiftr v 56) ].
End LittleEndian.

(** ** The filter *)

Record BloomFilter : Type := mkBloomFilter {
  m : Z;      (* number of bits *)
  k : Z;      (* number of hash functions *)
  bucket : Z  (* bit storage *)
}.

Definition NewMK (m k : Z) : BloomFilter := mkBloomFilter m k 0.

Definition hash1 (value : list byte) : Z :=
  fnv.Sum32 (fnv.Write fnv.New32a value).

Definition hash2 (value : list byte) : Z :=
  crc32.Sum32 (crc32.Write crc32.NewIEEE value).

Definition kiMiHash (b : BloomFilter) (value : list byte) (hashIdx : Z)
  : result Z :=
  index <- rem32 (add32 (hash1 value)
                        (mul32 (hash2 value) (uint32_of_int hashIdx)))
                 (uint32_of_int (m b)) ;;
  Ok (int_of_uint32 index).

Definition set_bucket (b : BloomFilter) (x : Z) : BloomFilter :=
  mkBloomFilter (m b) (k b) x.

Definition AddBytes (b : BloomFilter) (value : list byte)
  : result BloomFilter :=
  x <- for_range (k b)
         (fun h x => index <- kiMiHash b value h ;; SetBit x index)
         (bucket b) ;;
  Ok (set_bucket b x).

Definition AddString (b : BloomFilter) (value : string) : result BloomFilter :=
  AddBytes b (list_byte_of_string value).

Definition AddUInt32 (b : BloomFilter) (value : Z) : result BloomFilter :=
  AddBytes b (LittleEndian.PutUint32 value).

Definition AddUInt64 (b : BloomFilter) (value : Z) : result BloomFilter :=
  AddBytes b (LittleEndian.PutUint64 value).

Definition ContainsBytes (b : BloomFilter) (value : list byte) : result bool :=
  for_range (k b)
    (fun h res =>
       index <- kiMiHash b value h ;;
       bit <- Bit (bucket b) index ;;
       Ok (if bit =? 0 then false else res))
    true.

Definition ContainsString (b : BloomFilter) (value : string) : result bool :=
  ContainsBytes b (list_byte_of_string value).

Definition ContainsUInt32 (b : BloomFilter) (value : Z) : result bool :=
  ContainsBytes b (LittleEndian.PutUint32 value).

Definition ContainsUInt64 (b : BloomFilter) (value : Z) : result bool :=
  ContainsBytes b (LittleEndian.PutUint64 value).

(** [New] calls [CalcOptimalMK], whose body is floating-point arithmetic
    ([math.Log], [math.Pow] and the conversion of a [float64] to [int]).  The
    clamping that follows works on the two integers it returns, so the sizing
    function is a parameter here: what is proved of [New] holds whatever
    integers the floating-point computation delivers. *)
Section Construction.
Variable float64 : Type.
Variable CalcOptimalMK : Z -> float64 -> Z * Z.

Definition New (n : Z) (falsePositiveRate : float64) : BloomFilter :=
  let '(m0, k0) := CalcOptimalMK n falsePositiveRate in
  let m1 := if m0 <? 1 then 1 else m0 in
  let m2 := if m1 >? MaxInt32 then MaxInt32 else m1 in
  let k1 := if k0 <? 1 then 1 else k0 in
  NewMK m2 k1.
End Construction.

(** ** Definitions the statements use *)

(** A sizing function to run [New] on: a zero [m] with a hugely negative [k]
    for [n = 0], an [m] above [2^31 - 1] otherwise.  The values are samples
    of what [New] has to clamp, not outputs of the floating-point code. *)
Definition sample_sizing (n : Z) (rate : unit) : Z * Z :=
  if n =? 0 then (0, -9223372036854775808) else (30876851798, 10).


(** A run of insertions, one after the other on the same filter. *)
Fixpoint AddMany (b : BloomFilter) (values : list (list byte))
  : result BloomFilter :=
  match values with
  | [] => Ok b
  | value :: rest => b' <- AddBytes b value ;; AddMany b' rest
  end.

(** The probe position as the specification writes it: the sum and the
    product wrap at 32 bits, then the remainder by the number of bits [mm]
    is taken. *)
Definition position (mm : Z) (value : list byte) (i : Z) : Z :=
  add32 (hash1 value) (mul32 i (hash2 value)) mod mm.

(** The membership query as the specification words it: leave at the first
    probe whose bit is zero. *)
Fixpoint contains_first_zero (fuel : nat) (h : Z) (b : BloomFilter)
         (value : list byte) : result bool :=
  match fuel with
  | O => Ok true
  | Datatypes.S fuel' =>
      index <- kiMiHash b value h ;;
      bit <- Bit (bucket b) index ;;
      if bit =? 0 then Ok false else contains_first_zero fuel' (h + 1) b value
  end.

Definition ContainsBytes_short_circuit (b : BloomFilter) (value : list byte)
  : result bool :=
  contains_first_zero (Z.to_nat (k b)) 0 b value.

(** No false negatives for [value] on [b]: the insertion returns, the query
    that follows answers true, and it still answers true after any further
    insertions, none of which clears a bit. *)
Definition no_false_negatives (b : BloomFilter) (value : list byte) : Prop :=
  exists b1,
    AddBytes b value = Ok b1 /\
    ContainsBytes b1 value = Ok true /\
    forall others, exists b2,
      AddMany b1 others = Ok b2 /\
      ContainsBytes b2 value = Ok true /\
      forall j, Z.testbit (bucket b1) j = true ->
                Z.testbit (bucket b2) j = true.

(** FNV-1a on 32 bits as the algorithm is published: start from the offset
    basis; for each octet, xor it into the hash, then multiply by the prime
    modulo [2^32]. *)
Fixpoint FNV1a_32_from (hash : Z) (data : list byte) : Z :=
  match data with
  | [] => hash
  | c :: rest =>
      FNV1a_32_from ((Z.lxor hash (byte.unsigned c) * 16777619) mod 2 ^ 32) rest
  end.

Definition FNV1a_32 (data : list byte) : Z := FNV1a_32_from 2166136261 data.

(** CRC-32 one bit at a time: the reflected IEEE polynomial [0xedb88320], the
    register preset to all ones and complemented at the end. *)
Definition crc_bit (crc : Z) : Z :=
  Z.lxor (Z.shiftr crc 1) (if Z.testbit crc 0 then 0xedb88320 else 0).

Fixpoint CRC32_from (crc : Z) (data : list byte) : Z :=
  match data with
  | [] => crc
  | c :: rest =>
      CRC32_from (Nat.iter 8 crc_bit (Z.lxor crc (byte.unsigned c))) rest
  end.

Definition CRC32_IEEE (data : list byte) : Z :=
  Z.lxor (CRC32_from 0xffffffff data) 0xffffffff.

(** The index [kiMiHash] delivers when its divisor is not zero. *)
Definition probe (b : BloomFilter) (value : list byte) (h : Z) : Z :=
  add32 (hash1 value) (mul32 (hash2 value) (uint32_of_int h))
    mod uint32_of_int (m b).

(** The bodies of the two loops when [kiMiHash] delivers [probe]. *)
Definition set_probe (b : BloomFilter) (value : list byte) (h x : Z) : Z :=
  Z.setbit x (probe b value h).

Definition test_probe (b : BloomFilter) (value : list byte) (h : Z)
           (res : bool) : bool :=
  if Z.b2z (Z.testbit (bucket b) (probe b value h)) =? 0 then false else res.

(** A loop whose body cannot panic. *)
Fixpoint iter_from {S : Type} (fuel : nat) (h : Z) (g : Z -> S -> S) (s : S)
  : S :=
  match fuel with
  | O => s
  | Datatypes.S fuel' => iter_from fuel' (h + 1) g (g h s)
  end.

(** Little-endian reading of a byte sequence, the inverse of the stores. *)
Definition Uint (bytes : list byte) : Z := le_combine bytes.

(** ** Known digests and a first run *)

Example fnv1a_empty : hash1 [] = 0x811c9dc5.
Proof. reflexivity. Qed.

Example fnv1a_a : hash1 (list_byte_of_string "a") = 0xe40c292c.
Proof. vm_compute. reflexivity. Qed.

Example fnv1a_foobar : hash1 (list_byte_of_string "foobar") = 0xbf9cf968.
Proof. vm_compute. reflexivity. Qed.

Example crc32_empty : hash2 [] = 0.
Proof. vm_compute. reflexivity. Qed.

Example crc32_check : hash2 (list_byte_of_string "123456789") = 0xcbf43926.
Proof. vm_compute. reflexivity. Qed.

Example crc32_a : hash2 (list_byte_of_string "a") = 0xe8b7be43.
Proof. vm_compute. reflexivity. Qed.

(** A filter of one bit and one probe, the smallest [New] can build. *)
Example minimal_before :
  ContainsString (NewMK 1 1) "AnotherValue" = Ok false.
Proof. vm_compute. reflexivity. Qed.

Example minimal_after :
  (b <- AddString (NewMK 1 1) "AnotherValue" ;;
   ContainsString b "AnotherValue") = Ok true.
Proof. vm_compute. reflexivity. Qed.

Example two_values :
  (b1 <- AddString (NewMK 959 7) "SomeValue" ;;
   b2 <- AddString b1 "AnotherValue" ;;
   r1 <- ContainsString b2 "SomeValue" ;;
   r2 <- ContainsString b2 "AnotherValue" ;;
   r3 <- ContainsString (NewMK 959 7) "SomeValue" ;;
   Ok (r1, r2, r3)) = Ok (true, true, false).
Proof. vm_compute. reflexivity. Qed.

Example little_endian_store :
  LittleEndian.PutUint32 0x01020304 =
  [byte.of_Z 4; byte.of_Z 3; byte.of_Z 2; byte.of_Z 1].
Proof. vm_compute. reflexivity. Qed.

(** ** Machine arithmetic *)

Lemma wrap32_range (z : Z) : 0 <= wrap32 z < 2 ^ 32.
Proof. unfold wrap32. apply Z.mod_pos_bound. reflexivity. Qed.

Lemma wrap32_small (z : Z) : 0 <= z < 2 ^ 32 -> wrap32 z = z.
Proof. intros H. unfold wrap32. apply Z.mod_small. exact H. Qed.

Lemma mul32_uint32_r (a i : Z) : mul32 a (uint32_of_int i) = mul32 i a.
Proof.
  unfold mul32, uint32_of_int, wrap32.
  rewrite Z.mul_mod_idemp_r by discriminate.
  f_equal. apply Z.mul_comm.
Qed.

Lemma add32_wrap_r (a c : Z) : add32 a (wrap32 c) = (a + c) mod 2 ^ 32.
Proof.
  unfold add32, wrap32. apply Z.add_mod_idemp_r. discriminate.
Qed.

Lemma setbit_already (x i : Z) :
  0 <= i -> Z.testbit x i = true -> Z.setbit x i = x.
Proof.
  intros Hi Hx. apply Z.bits_inj'. intros n _.
  rewrite Z.setbit_eqb by exact Hi.
  destruct (Z.eqb_spec i n) as [->|]; [rewrite Hx|]; reflexivity.
Qed.

(** ** Loops *)

Lemma for_from_pure {S : Type} (body : Z -> S -> result S) (g : Z -> S -> S) :
  (forall h s, body h s = Ok (g h s)) ->
  forall fuel h s, for_from fuel h body s = Ok (iter_from fuel h g s).
Proof.
  intros Hbody fuel. induction fuel as [|fuel IH]; intros h s; simpl.
  - reflexivity.
  - rewrite Hbody. simpl. apply IH.
Qed.

Lemma for_from_panic {S : Type} (body : Z -> S -> result S) (p : panic) :
  (forall h s, body h s = Panic p) ->
  forall fuel h s, for_from (Datatypes.S fuel) h body s = Panic p.
Proof. intros Hbody fuel h s. simpl. rewrite Hbody. reflexivity. Qed.

Lemma iter_from_ext {S : Type} (g g' : Z -> S -> S) :
  (forall h s, g h s = g' h s) ->
  forall fuel h s, iter_from fuel h g s = iter_from fuel h g' s.
Proof.
  intros Hg fuel. induction fuel as [|fuel IH]; intros h s; simpl.
  - reflexivity.
  - rewrite Hg. apply IH.
Qed.

(** ** The probe index *)

Lemma probe_range (b : BloomFilter) (value : list byte) (h : Z) :
  uint32_of_int (m b) <> 0 ->
  0 <= probe b value h < uint32_of_int (m b).
Proof.
  intros Hm. unfold probe. apply Z.mod_pos_bound.
  pose proof (wrap32_range (m b)). unfold uint32_of_int in *. lia.
Qed.

Lemma kiMiHash_ok (b : BloomFilter) (value : list byte) (h : Z) :
  uint32_of_int (m b) <> 0 ->
  kiMiHash b value h = Ok (probe b value h).
Proof.
  intros Hm. unfold kiMiHash, rem32.
  destruct (Z.eqb_spec (uint32_of_int (m b)) 0) as [E|_]; [contradiction|].
  reflexivity.
Qed.

Lemma kiMiHash_panic (b : BloomFilter) (value : list byte) (h : Z) :
  uint32_of_int (m b) = 0 ->
  kiMiHash b value h = Panic DivideByZero.
Proof. intros Hm. unfold kiMiHash, rem32. rewrite Hm. reflexivity. Qed.

Lemma probe_same_m (b b' : BloomFilter) (value : list byte) (h : Z) :
  m b' = m b -> probe b' value h = probe b value h.
Proof. intros E. unfold probe. rewrite E. reflexivity. Qed.

Lemma uint32_of_int_small (x : Z) : 1 <= x < 2 ^ 32 -> uint32_of_int x = x.
Proof. intros H. apply wrap32_small. lia. Qed.

Lemma probe_position (b : BloomFilter) (value : list byte) (h : Z) :
  1 <= m b < 2 ^ 32 -> probe b value h = position (m b) value h.
Proof.
  intros Hm. unfold probe, position.
  rewrite mul32_uint32_r, uint32_of_int_small by exact Hm. reflexivity.
Qed.

(** ** What the two loops compute *)

Lemma AddBytes_ok (b : BloomFilter) (value : list byte) :
  uint32_of_int (m b) <> 0 ->
  AddBytes b value =
  Ok (set_bucket b
        (iter_from (Z.to_nat (k b)) 0 (set_probe b value) (bucket b))).
Proof.
  intros Hm. unfold AddBytes, for_range.
  rewrite (for_from_pure _ (set_probe b value)); [reflexivity|].
  intros h x. rewrite kiMiHash_ok by exact Hm. simpl.
  unfold SetBit, set_probe.
  pose proof (probe_range b value h Hm) as Hr.
  destruct (Z.ltb_spec (probe b value h) 0); [lia|reflexivity].
Qed.

Lemma ContainsBytes_ok (b : BloomFilter) (value : list byte) :
  uint32_of_int (m b) <> 0 ->
  ContainsBytes b value =
  Ok (iter_from (Z.to_nat (k b)) 0 (test_probe b value) true).
Proof.
  intros Hm. unfold ContainsBytes, for_range.
  apply for_from_pure.
  intros h res. rewrite kiMiHash_ok by exact Hm. simpl.
  unfold Bit, test_probe.
  pose proof (probe_range b value h Hm) as Hr.
  destruct (Z.ltb_spec (probe b value h) 0); [lia|reflexivity].
Qed.

Lemma AddBytes_panic (b : BloomFilter) (value : list byte) :
  uint32_of_int (m b) = 0 -> 1 <= k b ->
  AddBytes b value = Panic DivideByZero.
Proof.
  intros Hm Hk. unfold AddBytes, for_range.
  destruct (Z.to_nat (k b)) as [|fuel] eqn:E; [lia|].
  rewrite (for_from_panic _ DivideByZero); [reflexivity|].
  intros h x. rewrite kiMiHash_panic by exact Hm. reflexivity.
Qed.

Lemma ContainsBytes_panic (b : BloomFilter) (value : list byte) :
  uint32_of_int (m b) = 0 -> 1 <= k b ->
  ContainsBytes b value = Panic DivideByZero.
Proof.
  intros Hm Hk. unfold ContainsBytes, for_range.
  destruct (Z.to_nat (k b)) as [|fuel] eqn:E; [lia|].
  apply for_from_panic.
  intros h x. rewrite kiMiHash_panic by exact Hm. reflexivity.
Qed.

Lemma set_probes_testbit (b : BloomFilter) (value : list byte) (j : Z) :
  uint32_of_int (m b) <> 0 ->
  forall fuel h x,
    Z.testbit (iter_from fuel h (set_probe b value) x) j = true <->
    Z.testbit x j = true \/
    exists i, h <= i < h + Z.of_nat fuel /\ probe b value i = j.
Proof.
  intros Hm fuel. induction fuel as [|fuel IH]; intros h x; simpl iter_from.
  - split; [auto|]. intros [H|[i [Hi _]]]; [exact H|lia].
  - rewrite IH. unfold set_probe.
    pose proof (probe_range b value h Hm) as Hr.
    rewrite Z.setbit_iff by lia. split.
    + intros [[E|H]|[i [Hi E]]].
      * right. exists h. split; [lia|exact E].
      * left. exact H.
      * right. exists i. split; [lia|exact E].
    + intros [H|[i [Hi E]]].
      * left. right. exact H.
      * destruct (Z.eq_dec i h) as [->|Hne].
        -- left. left. exact E.
        -- right. exists i. split; [lia|exact E].
Qed.

Lemma test_probes_true (b : BloomFilter) (value : list byte) :
  forall fuel h res,
    iter_from fuel h (test_probe b value) res = true <->
    res = true /\
    forall i, h <= i < h + Z.of_nat fuel ->
              Z.testbit (bucket b) (probe b value i) = true.
Proof.
  intros fuel. induction fuel as [|fuel IH]; intros h res; simpl iter_from.
  - split; [intros H; split; [exact H|intros; lia]|intros [H _]; exact H].
  - rewrite IH. unfold test_probe.
    destruct (Z.testbit (bucket b) (probe b value h)) eqn:Eb; simpl.
    + split.
      * intros [Hres Hall]. split; [exact Hres|].
        intros i Hi. destruct (Z.eq_dec i h) as [->|Hne]; [exact Eb|].
        apply Hall. lia.
      * intros [Hres Hall]. split; [exact Hres|]. intros i Hi. apply Hall. lia.
    + split.
      * intros [Hres _]. discriminate.
      * intros [_ Hall]. specialize (Hall h). rewrite Eb in Hall.
        assert (false = true) by (apply Hall; lia). discriminate.
Qed.

Lemma ContainsBytes_true_iff (b : BloomFilter) (value : list byte) :
  uint32_of_int (m b) <> 0 ->
  (ContainsBytes b value = Ok true <->
   forall i, 0 <= i < k b -> Z.testbit (bucket b) (probe b value i) = true).
Proof.
  intros Hm. rewrite ContainsBytes_ok by exact Hm. split.
  - intros H. injection H as H. apply test_probes_true in H.
    destruct H as [_ H]. intros i Hi. apply H. lia.
  - intros H. f_equal. apply test_probes_true. split; [reflexivity|].
    intros i Hi. apply H. lia.
Qed.

(** ** Insertion keeps the parameters and only sets bits *)

Lemma AddBytes_fields (b b' : BloomFilter) (value : list byte) :
  AddBytes b value = Ok b' -> m b' = m b /\ k b' = k b.
Proof.
  unfold AddBytes. destruct (for_range _ _ _) as [x|p]; simpl; intros H.
  - injection H as <-. split; reflexivity.
  - discriminate.
Qed.

Lemma AddBytes_sets (b b' : BloomFilter) (value : list byte) (j : Z) :
  uint32_of_int (m b) <> 0 ->
  AddBytes b value = Ok b' ->
  (Z.testbit (bucket b') j = true <->
   Z.testbit (bucket b) j = true \/
   exists i, 0 <= i < k b /\ probe b value i = j).
Proof.
  intros Hm H. rewrite AddBytes_ok in H by exact Hm. injection H as <-.
  simpl. rewrite set_probes_testbit by exact Hm. split.
  - intros [Hx|[i [Hi E]]]; [left; exact Hx|].
    right. exists i. split; [lia|exact E].
  - intros [Hx|[i [Hi E]]]; [left; exact Hx|].
    right. exists i. split; [lia|exact E].
Qed.

Lemma AddMany_keeps (others : list (list byte)) :
  forall b, uint32_of_int (m b) <> 0 ->
  exists b2,
    AddMany b others = Ok b2 /\ m b2 = m b /\ k b2 = k b /\
    forall j, Z.testbit (bucket b) j = true -> Z.testbit (bucket b2) j = true.
Proof.
  induction others as [|value rest IH]; intros b Hm; simpl.
  - exists b. repeat split; auto.
  - pose proof (AddBytes_ok b value Hm) as Hadd. rewrite Hadd. simpl.
    destruct (AddBytes_fields _ _ _ Hadd) as [Em Ek].
    destruct (IH (set_bucket b
                    (iter_from (Z.to_nat (k b)) 0 (set_probe b value)
                               (bucket b)))) as [b2 [H2 [Em2 [Ek2 Hmono]]]].
    { rewrite Em. exact Hm. }
    exists b2. split; [exact H2|]. split; [congruence|].
    split; [congruence|].
    intros j Hj. apply Hmono.
    apply (AddBytes_sets b _ value j Hm Hadd). left. exact Hj.
Qed.

(** ** C1 *)

(** C1 as stated fails: a filter of [2^32] bits has [m >= 1] and [k >= 1],
    but [uint32(m)] is zero and the first insertion panics on the remainder
    in [kiMiHash]. *)
Lemma C1_counterexample :
  1 <= m (NewMK 4294967296 1) /\ 1 <= k (NewMK 4294967296 1) /\
  AddBytes (NewMK 4294967296 1) [] = Panic DivideByZero /\
  ~ no_false_negatives (NewMK 4294967296 1) [].
Proof.
  assert (E : AddBytes (NewMK 4294967296 1) [] = Panic DivideByZero)
    by (vm_compute; reflexivity).
  split; [simpl; lia|]. split; [simpl; lia|]. split; [exact E|].
  intros [b1 [H _]]. rewrite E in H. discriminate.
Qed.

(** C1 (amended): for every filter whose [m] has low 32 bits that are not all
    zero (every [m] with [1 <= m <= 2^32 - 1] is such), and every byte
    sequence, [AddBytes] returns, the [ContainsBytes] that follows returns
    true, and it still returns true after any further sequence of [AddBytes]
    calls, which never clear a bit. *)
Theorem C1_no_false_negatives (b : BloomFilter) (value : list byte) :
  uint32_of_int (m b) <> 0 -> no_false_negatives b value.
Proof.
  intros Hm. unfold no_false_negatives.
  pose proof (AddBytes_ok b value Hm) as Hadd.
  eexists. split; [exact Hadd|].
  destruct (AddBytes_fields _ _ _ Hadd) as [Em Ek].
  set (b1 := set_bucket b _) in *.
  assert (Hm1 : uint32_of_int (m b1) <> 0) by (rewrite Em; exact Hm).
  assert (Hset : forall i, 0 <= i < k b ->
                           Z.testbit (bucket b1) (probe b value i) = true).
  { intros i Hi. apply (AddBytes_sets b b1 value _ Hm Hadd).
    right. exists i. split; [exact Hi|reflexivity]. }
  split.
  - apply ContainsBytes_true_iff; [exact Hm1|].
    intros i Hi. rewrite (probe_same_m b b1) by exact Em.
    apply Hset. lia.
  - intros others.
    destruct (AddMany_keeps others b1 Hm1) as [b2 [H2 [Em2 [Ek2 Hmono]]]].
    exists b2. split; [exact H2|]. split; [|exact Hmono].
    apply ContainsBytes_true_iff; [congruence|].
    intros i Hi. rewrite (probe_same_m b b2) by congruence.
    apply Hmono, Hset. lia.
Qed.

Lemma C1_no_false_negatives_witness :
  no_false_negatives (NewMK 64 2) (list_byte_of_string "SomeValue").
Proof.
  apply C1_no_false_negatives. vm_compute. discriminate.
Defined.

(** ** The two digests are 32-bit values *)

Lemma lxor_below (n a c : Z) :
  0 <= n -> 0 <= a < 2 ^ n -> 0 <= c < 2 ^ n -> 0 <= Z.lxor a c < 2 ^ n.
Proof.
  intros Hn Ha Hc.
  assert (H0 : 0 <= Z.lxor a c) by (apply Z.lxor_nonneg; lia).
  split; [exact H0|].
  destruct (Z.eq_dec (Z.lxor a c) 0) as [E|Hne].
  - rewrite E. apply Z.pow_pos_nonneg; lia.
  - apply Z.log2_lt_pow2; [lia|].
    pose proof (Z.log2_lxor a c (proj1 Ha) (proj1 Hc)) as Hl.
    assert (La : a = 0 \/ Z.log2 a < n).
    { destruct (Z.eq_dec a 0); [left; assumption|right].
      apply Z.log2_lt_pow2; lia. }
    assert (Lc : c = 0 \/ Z.log2 c < n).
    { destruct (Z.eq_dec c 0); [left; assumption|right].
      apply Z.log2_lt_pow2; lia. }
    destruct La as [->|La], Lc as [->|Lc].
    + rewrite Z.lxor_0_l in Hne. contradiction.
    + rewrite Z.lxor_0_l in *. exact Lc.
    + rewrite Z.lxor_0_r in *. exact La.
    + lia.
Qed.

Lemma shiftr_below (n s a : Z) :
  0 <= s -> 0 <= a < 2 ^ n -> 0 <= Z.shiftr a s < 2 ^ n.
Proof.
  intros Hs Ha. rewrite Z.shiftr_div_pow2 by exact Hs.
  assert (0 < 2 ^ s) by (apply Z.pow_pos_nonneg; lia).
  split; [apply Z.div_pos; lia|].
  apply Z.le_lt_trans with a; [|lia].
  apply Z.div_le_upper_bound; [lia|]. nia.
Qed.

Lemma table_step_range (crc : Z) :
  0 <= crc < 2 ^ 32 -> 0 <= crc32.table_step crc < 2 ^ 32.
Proof.
  intros H. unfold crc32.table_step, xor32.
  pose proof (shiftr_below 32 1 crc ltac:(lia) H) as Hs.
  destruct (Z.testbit crc 0); [|exact Hs].
  apply lxor_below; [lia|exact Hs|]. unfold crc32.IEEE. lia.
Qed.

Lemma IEEETable_range (i : Z) :
  0 <= i < 2 ^ 32 -> 0 <= crc32.IEEETable i < 2 ^ 32.
Proof.
  intros H. unfold crc32.IEEETable.
  repeat (simpl Nat.iter; apply table_step_range). exact H.
Qed.

Lemma not32_range (a : Z) : 0 <= a < 2 ^ 32 -> 0 <= not32 a < 2 ^ 32.
Proof.
  intros H. unfold not32. apply lxor_below; [lia|exact H|].
  rewrite Z.ones_equiv. lia.
Qed.

Lemma hash1_range (value : list byte) : 0 <= hash1 value < 2 ^ 32.
Proof.
  unfold hash1, fnv.Sum32, fnv.Write, fnv.New32a.
  assert (H : 0 <= fnv.offset32 < 2 ^ 32) by (unfold fnv.offset32; lia).
  revert H. generalize fnv.offset32.
  induction value as [|c rest IH]; intros s Hs; simpl.
  - exact Hs.
  - apply IH. unfold mul32. apply wrap32_range.
Qed.

Lemma hash2_range (value : list byte) : 0 <= hash2 value < 2 ^ 32.
Proof.
  unfold hash2, crc32.Sum32, crc32.Write, crc32.update, crc32.NewIEEE.
  apply not32_range.
  assert (H : 0 <= not32 0 < 2 ^ 32) by (apply not32_range; lia).
  revert H. generalize (not32 0).
  induction value as [|c rest IH]; intros s Hs; cbn [fold_left].
  - exact Hs.
  - apply IH. unfold xor32.
    apply lxor_below; [lia| |apply shiftr_below; lia].
    apply IEEETable_range.
    assert (Hlow : 0 <= s mod 2 ^ 8 < 2 ^ 8)
      by (apply Z.mod_pos_bound; reflexivity).
    pose proof (byte.unsigned_range c) as Hc.
    pose proof (lxor_below 8 _ _ ltac:(lia) Hlow Hc). lia.
Qed.

(** ** The table-driven CRC is the bit-at-a-time CRC *)

Lemma table_step_lxor (a c : Z) :
  crc32.table_step (Z.lxor a c) =
  Z.lxor (crc32.table_step a) (crc32.table_step c).
Proof.
  unfold crc32.table_step, xor32. rewrite Z.lxor_spec, Z.shiftr_lxor.
  generalize crc32.IEEE. intros P.
  destruct (Z.testbit a 0), (Z.testbit c 0); simpl xorb; cbv iota.
  - rewrite (Z.lxor_comm (Z.shiftr c 1) P), Z.lxor_assoc,
      <- (Z.lxor_assoc P P), Z.lxor_nilpotent, Z.lxor_0_l. reflexivity.
  - rewrite !Z.lxor_assoc. f_equal. apply Z.lxor_comm.
  - rewrite Z.lxor_assoc. reflexivity.
  - reflexivity.
Qed.

Lemma iter_step_lxor (n : nat) (a c : Z) :
  Nat.iter n crc32.table_step (Z.lxor a c) =
  Z.lxor (Nat.iter n crc32.table_step a) (Nat.iter n crc32.table_step c).
Proof.
  induction n as [|n IH]; [reflexivity|].
  rewrite !Nat.iter_succ, IH. apply table_step_lxor.
Qed.

Lemma iter_step_shiftl (y : Z) (j : nat) :
  (j <= 8)%nat ->
  Nat.iter j crc32.table_step (Z.shiftl y 8) = Z.shiftl y (8 - Z.of_nat j).
Proof.
  induction j as [|j IH]; intros Hj.
  - reflexivity.
  - rewrite Nat.iter_succ, IH by lia. unfold crc32.table_step.
    rewrite Z.shiftl_spec_low by lia.
    rewrite Z.shiftr_shiftl_l by lia. f_equal. lia.
Qed.

Lemma split_low_byte (a : Z) :
  a = Z.lxor (a mod 2 ^ 8) (Z.shiftl (Z.shiftr a 8) 8).
Proof.
  apply Z.bits_inj'. intros n Hn. rewrite Z.lxor_spec.
  destruct (Z_lt_le_dec n 8).
  - rewrite Z.mod_pow2_bits_low, Z.shiftl_spec_low by lia.
    rewrite xorb_false_r. reflexivity.
  - rewrite Z.mod_pow2_bits_high, Z.shiftl_spec, Z.shiftr_spec by lia.
    simpl. f_equal. lia.
Qed.

Lemma table_lookup (crc v : Z) :
  xor32 (crc32.IEEETable (xor32 (crc mod 2 ^ 8) v)) (Z.shiftr crc 8) =
  Nat.iter 8 crc32.table_step (Z.lxor crc v).
Proof.
  unfold xor32, crc32.IEEETable.
  set (low := crc mod 2 ^ 8). set (high := Z.shiftl (Z.shiftr crc 8) 8).
  assert (E : Z.lxor crc v = Z.lxor (Z.lxor low v) high).
  { rewrite (split_low_byte crc) at 1. fold low high.
    rewrite !Z.lxor_assoc. f_equal. apply Z.lxor_comm. }
  rewrite E, (iter_step_lxor 8 (Z.lxor low v) high). unfold high.
  rewrite (iter_step_shiftl _ 8) by lia.
  change (8 - Z.of_nat 8) with 0. rewrite Z.shiftl_0_r. reflexivity.
Qed.

Lemma crc_bit_table_step (crc : Z) : crc_bit crc = crc32.table_step crc.
Proof.
  unfold crc_bit, crc32.table_step, xor32, crc32.IEEE.
  destruct (Z.testbit crc 0); [reflexivity|apply Z.lxor_0_r].
Qed.

Lemma iter_crc_bit (n : nat) (crc : Z) :
  Nat.iter n crc_bit crc = Nat.iter n crc32.table_step crc.
Proof.
  induction n as [|n IH]; [reflexivity|].
  rewrite !Nat.iter_succ, IH. apply crc_bit_table_step.
Qed.

Lemma hash1_FNV1a (value : list byte) : hash1 value = FNV1a_32 value.
Proof.
  unfold hash1, fnv.Sum32, fnv.Write, fnv.New32a, FNV1a_32.
  change fnv.offset32 with 2166136261. generalize 2166136261.
  induction value as [|c rest IH]; intros s; [reflexivity|].
  cbn [fold_left FNV1a_32_from]. rewrite IH. reflexivity.
Qed.

Lemma hash2_CRC32 (value : list byte) : hash2 value = CRC32_IEEE value.
Proof.
  unfold hash2, crc32.Sum32, crc32.Write, crc32.update, crc32.NewIEEE,
    CRC32_IEEE.
  change (not32 0) with 0xffffffff. unfold not32.
  change (Z.ones 32) with 0xffffffff. f_equal.
  generalize 0xffffffff.
  induction value as [|c rest IH]; intros s; [reflexivity|].
  cbn [fold_left CRC32_from]. rewrite IH, table_lookup, iter_crc_bit.
  reflexivity.
Qed.

(** ** C2 *)

(** C2: for a filter with [1 <= m <= 2^31 - 1], every byte sequence and every
    probe number [i] (in particular every [0 <= i < k]), [kiMiHash] returns
    [(hash1 v + i * hash2 v) mod m] with the sum and the product wrapped at
    32 bits before the remainder; [hash1] is the 32-bit FNV-1a digest and
    [hash2] the CRC-32 digest of the IEEE polynomial, both in [0, 2^32). *)
Theorem C2_probe_position (b : BloomFilter) (value : list byte) (i : Z) :
  1 <= m b <= MaxInt32 ->
  kiMiHash b value i = Ok (position (m b) value i) /\
  position (m b) value i = ((hash1 value + i * hash2 value) mod 2 ^ 32) mod m b /\
  hash1 value = FNV1a_32 value /\ hash2 value = CRC32_IEEE value /\
  0 <= hash1 value < 2 ^ 32 /\ 0 <= hash2 value < 2 ^ 32.
Proof.
  intros Hm. unfold MaxInt32 in Hm.
  assert (Hm' : 1 <= m b < 2 ^ 32) by lia.
  assert (Hnz : uint32_of_int (m b) <> 0)
    by (rewrite uint32_of_int_small by exact Hm'; lia).
  split; [|split; [|split; [|split; [|split]]]].
  - rewrite kiMiHash_ok by exact Hnz. f_equal. apply probe_position. exact Hm'.
  - unfold position, mul32. rewrite add32_wrap_r. reflexivity.
  - apply hash1_FNV1a.
  - apply hash2_CRC32.
  - apply hash1_range.
  - apply hash2_range.
Qed.

Lemma C2_probe_position_witness :
  1 <= m (NewMK 64 2) <= MaxInt32 /\
  kiMiHash (NewMK 64 2) (list_byte_of_string "SomeValue") 1 =
  Ok (position 64 (list_byte_of_string "SomeValue") 1).
Proof.
  split; [vm_compute; split; discriminate|].
  apply (C2_probe_position (NewMK 64 2) (list_byte_of_string "SomeValue") 1).
  vm_compute; split; discriminate.
Defined.

(** ** The query that leaves at the first zero bit *)

Lemma test_probes_false (b : BloomFilter) (value : list byte) :
  forall fuel h, iter_from fuel h (test_probe b value) false = false.
Proof.
  intros fuel. induction fuel as [|fuel IH]; intros h; simpl.
  - reflexivity.
  - unfold test_probe at 2.
    destruct (Z.b2z (Z.testbit (bucket b) (probe b value h)) =? 0); apply IH.
Qed.

Lemma contains_first_zero_ok (b : BloomFilter) (value : list byte) :
  uint32_of_int (m b) <> 0 ->
  forall fuel h,
    contains_first_zero fuel h b value =
    Ok (iter_from fuel h (test_probe b value) true).
Proof.
  intros Hm fuel. induction fuel as [|fuel IH]; intros h; simpl.
  - reflexivity.
  - rewrite kiMiHash_ok by exact Hm. simpl. unfold Bit.
    pose proof (probe_range b value h Hm) as Hr.
    destruct (Z.ltb_spec (probe b value h) 0); [lia|]. simpl.
    unfold test_probe at 2.
    destruct (Z.b2z (Z.testbit (bucket b) (probe b value h)) =? 0).
    + rewrite test_probes_false. reflexivity.
    + apply IH.
Qed.

Lemma short_circuit_same (b : BloomFilter) (value : list byte) :
  ContainsBytes_short_circuit b value = ContainsBytes b value.
Proof.
  destruct (Z.eq_dec (uint32_of_int (m b)) 0) as [Hz|Hnz].
  - unfold ContainsBytes_short_circuit, ContainsBytes, for_range.
    destruct (Z.to_nat (k b)) as [|fuel]; simpl; [reflexivity|].
    rewrite kiMiHash_panic by exact Hz. reflexivity.
  - rewrite ContainsBytes_ok by exact Hnz.
    apply contains_first_zero_ok. exact Hnz.
Qed.

(** ** C3 *)

(** C3 as stated fails.  With [m = 2^32] and [k = 1] the only probe bit of an
    empty filter is 0, so the claim has the query return false, but the query
    panics.  With [m = 2^32 + 1] and bit 0 set (the state after any insertion)
    the bit at [position] is 0 while the query returns true, because the code
    reduces modulo [uint32(m) = 1]. *)
Lemma C3_counterexample :
  (1 <= m (NewMK 4294967296 1) /\ 1 <= k (NewMK 4294967296 1) /\
   Z.testbit (bucket (NewMK 4294967296 1)) (position 4294967296 [] 0) = false /\
   ContainsBytes (NewMK 4294967296 1) [] = Panic DivideByZero) /\
  (AddBytes (NewMK 4294967297 1) [] = Ok (mkBloomFilter 4294967297 1 1) /\
   Z.testbit 1 (position 4294967297 [] 0) = false /\
   ContainsBytes (mkBloomFilter 4294967297 1 1) [] = Ok true).
Proof. vm_compute. repeat split; discriminate. Qed.

(** C3 (amended): for every filter with [1 <= m <= 2^32 - 1] and every byte
    sequence, [ContainsBytes] returns; it returns true exactly when all [k]
    probe bits, at [position v 0 .. position v (k-1)], are 1, it returns false
    when one of them is 0, and the query that stops at the first zero bit
    returns the same. *)
Theorem C3_membership (b : BloomFilter) (value : list byte) :
  1 <= m b < 2 ^ 32 ->
  exists res,
    ContainsBytes b value = Ok res /\
    (res = true <->
     forall i, 0 <= i < k b ->
               Z.testbit (bucket b) (position (m b) value i) = true) /\
    ((exists i, 0 <= i < k b /\
                Z.testbit (bucket b) (position (m b) value i) = false) ->
     res = false) /\
    ContainsBytes_short_circuit b value = Ok res.
Proof.
  intros Hm.
  assert (Hnz : uint32_of_int (m b) <> 0)
    by (rewrite uint32_of_int_small by exact Hm; lia).
  pose proof (ContainsBytes_ok b value Hnz) as Hc.
  pose proof (ContainsBytes_true_iff b value Hnz) as Hiff.
  rewrite Hc in Hiff.
  exists (iter_from (Z.to_nat (k b)) 0 (test_probe b value) true).
  assert (Hall : iter_from (Z.to_nat (k b)) 0 (test_probe b value) true = true
                 <-> forall i, 0 <= i < k b ->
                     Z.testbit (bucket b) (position (m b) value i) = true).
  { split.
    - intros E i Hi. rewrite <- probe_position by exact Hm.
      apply Hiff; [f_equal; exact E|exact Hi].
    - intros H. assert (E : Ok (iter_from (Z.to_nat (k b)) 0
                                  (test_probe b value) true) = Ok true).
      { apply Hiff. intros i Hi. rewrite probe_position by exact Hm.
        apply H. exact Hi. }
      injection E as E. exact E. }
  split; [exact Hc|]. split; [exact Hall|]. split.
  - intros [i [Hi Hbit]].
    destruct (iter_from _ _ _ _) eqn:E; [|reflexivity].
    rewrite (proj1 Hall eq_refl i Hi) in Hbit. discriminate.
  - rewrite short_circuit_same. exact Hc.
Qed.

Lemma C3_membership_witness :
  1 <= m (mkBloomFilter 64 2 0) < 2 ^ 32 /\
  exists res, ContainsBytes (mkBloomFilter 64 2 0) [] = Ok res.
Proof.
  split; [vm_compute; split; [discriminate|reflexivity]|].
  destruct (C3_membership (mkBloomFilter 64 2 0) []) as [res [H _]].
  - vm_compute; split; [discriminate|reflexivity].
  - exists res. exact H.
Defined.

(** ** C6 *)

(** C6 as stated fails: [NewMK(2^32, 1)] has [m >= 1] and [k >= 1], and the
    query on the fresh filter panics instead of returning false. *)
Lemma C6_counterexample :
  1 <= 4294967296 /\ 1 <= 1 /\
  ContainsBytes (NewMK 4294967296 1) (list_byte_of_string "AnotherValue")
  = Panic DivideByZero.
Proof. vm_compute. repeat split; discriminate. Qed.

(** C6 (amended): a filter fresh from [NewMK m k], with the low 32 bits of [m]
    not all zero (every [1 <= m <= 2^32 - 1] is such) and [k >= 1], has an
    all-zero bit array and answers false to [ContainsBytes] on every byte
    sequence. *)
Theorem C6_empty_filter (mm kk : Z) (value : list byte) :
  uint32_of_int mm <> 0 -> 1 <= kk ->
  (forall j, Z.testbit (bucket (NewMK mm kk)) j = false) /\
  ContainsBytes (NewMK mm kk) value = Ok false.
Proof.
  intros Hm Hk. split; [intros j; apply Z.testbit_0_l|].
  pose proof (ContainsBytes_ok (NewMK mm kk) value Hm) as Hc.
  rewrite Hc. f_equal.
  destruct (iter_from _ _ _ _) eqn:E; [|reflexivity].
  apply test_probes_true in E. destruct E as [_ E].
  specialize (E 0). simpl bucket in E. rewrite Z.testbit_0_l in E.
  symmetry. apply E. simpl k. lia.
Qed.

Lemma C6_empty_filter_witness :
  uint32_of_int 1 <> 0 /\ 1 <= 1 /\
  ContainsBytes (NewMK 1 1) (list_byte_of_string "AnotherValue") = Ok false.
Proof.
  split; [vm_compute; discriminate|]. split; [lia|].
  apply (C6_empty_filter 1 1); [vm_compute; discriminate|lia].
Defined.

(** ** The bit array keeps its length *)

Lemma setbit_below (n x i : Z) :
  0 <= x < 2 ^ n -> 0 <= i < n -> 0 <= Z.setbit x i < 2 ^ n.
Proof.
  intros Hx Hi.
  assert (Hn : 0 <= n) by lia.
  assert (Hp : 0 < 2 ^ i) by (apply Z.pow_pos_nonneg; lia).
  assert (H0 : 0 <= Z.setbit x i).
  { rewrite Z.setbit_spec'. apply Z.lor_nonneg. lia. }
  split; [exact H0|].
  destruct (Z.eq_dec (Z.setbit x i) 0) as [E|Hne].
  - rewrite E. apply Z.pow_pos_nonneg; lia.
  - apply Z.log2_lt_pow2; [lia|].
    rewrite Z.setbit_spec', Z.log2_lor by lia.
    rewrite Z.log2_pow2 by lia.
    destruct (Z.eq_dec x 0) as [->|Hx0]; [simpl Z.log2; lia|].
    assert (Z.log2 x < n) by (apply Z.log2_lt_pow2; lia). lia.
Qed.

Lemma set_probes_below (b : BloomFilter) (value : list byte) (n : Z) :
  uint32_of_int (m b) <> 0 -> uint32_of_int (m b) <= n ->
  forall fuel h x,
    0 <= x < 2 ^ n ->
    0 <= iter_from fuel h (set_probe b value) x < 2 ^ n.
Proof.
  intros Hm Hn fuel. induction fuel as [|fuel IH]; intros h x Hx; simpl.
  - exact Hx.
  - apply IH. unfold set_probe. apply setbit_below; [exact Hx|].
    pose proof (probe_range b value h Hm). lia.
Qed.

(** ** C7 *)

(** C7: for a filter with [1 <= m <= 2^31 - 1] and every byte sequence, every
    index [kiMiHash] produces lies in [0, m); [AddBytes] returns, sets no bit
    outside [0, m) and leaves an [m]-bit array an [m]-bit array;
    [ContainsBytes] returns. *)
Theorem C7_index_in_range (b : BloomFilter) (value : list byte) :
  1 <= m b <= MaxInt32 ->
  (forall h, exists index,
      kiMiHash b value h = Ok index /\ 0 <= index < m b) /\
  (exists b',
      AddBytes b value = Ok b' /\ m b' = m b /\ k b' = k b /\
      (forall j, Z.testbit (bucket b') j = true ->
                 Z.testbit (bucket b) j = true \/ 0 <= j < m b) /\
      (0 <= bucket b < 2 ^ m b -> 0 <= bucket b' < 2 ^ m b)) /\
  (exists res, ContainsBytes b value = Ok res).
Proof.
  intros Hm. unfold MaxInt32 in Hm.
  assert (Hu : uint32_of_int (m b) = m b)
    by (apply uint32_of_int_small; lia).
  assert (Hnz : uint32_of_int (m b) <> 0) by lia.
  split; [|split].
  - intros h. exists (probe b value h). split.
    + apply kiMiHash_ok. exact Hnz.
    + pose proof (probe_range b value h Hnz). lia.
  - pose proof (AddBytes_ok b value Hnz) as Hadd.
    eexists. split; [exact Hadd|].
    split; [reflexivity|]. split; [reflexivity|]. split.
    + intros j Hj. apply (AddBytes_sets b _ value j Hnz Hadd) in Hj.
      destruct Hj as [Hj|[i [_ <-]]]; [left; exact Hj|right].
      pose proof (probe_range b value i Hnz). lia.
    + intros Hb. simpl bucket.
      apply set_probes_below; [exact Hnz|lia|exact Hb].
  - eexists. apply ContainsBytes_ok. exact Hnz.
Qed.

Lemma C7_index_in_range_witness :
  1 <= m (NewMK 1 1) <= MaxInt32 /\
  exists index, kiMiHash (NewMK 1 1) [] 0 = Ok index /\ 0 <= index < 1.
Proof.
  split; [vm_compute; split; discriminate|].
  apply (C7_index_in_range (NewMK 1 1) []).
  vm_compute; split; discriminate.
Defined.

(** ** C9 *)

Lemma set_probes_already (b : BloomFilter) (value : list byte) :
  uint32_of_int (m b) <> 0 ->
  forall fuel h x,
    (forall i, h <= i < h + Z.of_nat fuel ->
               Z.testbit x (probe b value i) = true) ->
    iter_from fuel h (set_probe b value) x = x.
Proof.
  intros Hm fuel. induction fuel as [|fuel IH]; intros h x Hall; simpl.
  - reflexivity.
  - assert (E : set_probe b value h x = x).
    { unfold set_probe. apply setbit_already.
      - pose proof (probe_range b value h Hm). lia.
      - apply Hall. lia. }
    rewrite E. apply IH. intros i Hi. apply Hall. lia.
Qed.

(** C9: for every filter state and every byte sequence, [AddBytes] twice in
    succession ends as [AddBytes] once does: in the same filter, bit array
    included (and in the same panic where the first call panics). *)
Theorem C9_add_idempotent (b : BloomFilter) (value : list byte) :
  (b1 <- AddBytes b value ;; AddBytes b1 value) = AddBytes b value.
Proof.
  destruct (Z.eq_dec (uint32_of_int (m b)) 0) as [Hz|Hnz].
  - destruct (Z_lt_le_dec (k b) 1) as [Hk|Hk].
    + unfold AddBytes, for_range.
      replace (Z.to_nat (k b)) with 0%nat by lia. simpl.
      replace (Z.to_nat (k b)) with 0%nat by lia. reflexivity.
    + rewrite AddBytes_panic by assumption. reflexivity.
  - pose proof (AddBytes_ok b value Hnz) as Hadd.
    rewrite Hadd at 1. simpl bind.
    set (x := iter_from (Z.to_nat (k b)) 0 (set_probe b value) (bucket b))
      in *.
    rewrite AddBytes_ok by exact Hnz. rewrite Hadd. f_equal.
    unfold set_bucket at 1. simpl m. simpl k. simpl bucket.
    unfold set_bucket. f_equal.
    rewrite (iter_from_ext _ (set_probe b value))
      by (intros h s; unfold set_probe; f_equal).
    apply set_probes_already; [exact Hnz|].
    intros i Hi. apply (AddBytes_sets b _ value _ Hnz Hadd).
    right. exists i. split; [lia|reflexivity].
Qed.

(** ** The integer wrappers *)

Lemma PutUint32_le_split (v : Z) : LittleEndian.PutUint32 v = le_split 4 v.
Proof.
  unfold LittleEndian.PutUint32, le_split.
  rewrite !Z.shiftr_shiftr by lia. reflexivity.
Qed.

Lemma PutUint64_le_split (v : Z) : LittleEndian.PutUint64 v = le_split 8 v.
Proof.
  unfold LittleEndian.PutUint64, le_split.
  rewrite !Z.shiftr_shiftr by lia. reflexivity.
Qed.

Lemma Uint_PutUint32 (v : Z) :
  0 <= v < 2 ^ 32 -> Uint (LittleEndian.PutUint32 v) = v.
Proof.
  intros Hv. unfold Uint. rewrite PutUint32_le_split, le_combine_split.
  apply Z.mod_small. exact Hv.
Qed.

Lemma Uint_PutUint64 (v : Z) :
  0 <= v < 2 ^ 64 -> Uint (LittleEndian.PutUint64 v) = v.
Proof.
  intros Hv. unfold Uint. rewrite PutUint64_le_split, le_combine_split.
  apply Z.mod_small. exact Hv.
Qed.

Lemma add_then_contains (b : BloomFilter) (value : list byte) :
  uint32_of_int (m b) <> 0 ->
  exists b', AddBytes b value = Ok b' /\ ContainsBytes b' value = Ok true.
Proof.
  intros Hm. pose proof (AddBytes_ok b value Hm) as Hadd.
  eexists. split; [exact Hadd|].
  destruct (AddBytes_fields _ _ _ Hadd) as [Em Ek].
  apply ContainsBytes_true_iff; [rewrite Em; exact Hm|].
  intros i Hi. rewrite (probe_same_m b) by exact Em.
  apply (AddBytes_sets b _ value _ Hm Hadd).
  right. exists i. split; [lia|reflexivity].
Qed.

(** ** C8 *)

(** C8 as stated fails: on a filter with [m = 2^32] and [k = 1] the wrappers
    panic for [x = 7], the 32-bit and the 64-bit ones alike. *)
Lemma C8_counterexample :
  1 <= m (NewMK 4294967296 1) /\ 1 <= k (NewMK 4294967296 1) /\
  AddUInt32 (NewMK 4294967296 1) 7 = Panic DivideByZero /\
  ContainsUInt32 (NewMK 4294967296 1) 7 = Panic DivideByZero /\
  AddUInt64 (NewMK 4294967296 1) 7 = Panic DivideByZero /\
  ContainsUInt64 (NewMK 4294967296 1) 7 = Panic DivideByZero.
Proof. vm_compute. repeat split; discriminate. Qed.

(** C8 (amended): [AddUInt32] and [ContainsUInt32] work on the 4-byte
    little-endian encoding of their argument, the 64-bit wrappers on the
    8-byte one; for every filter whose [m] has low 32 bits that are not all
    zero (every [1 <= m <= 2^32 - 1] is such), [AddUInt32 x] followed by
    [ContainsUInt32 x] returns true for every 32-bit [x], and likewise
    [AddUInt64] and [ContainsUInt64] for every 64-bit [y]. *)
Theorem C8_integer_wrappers (b : BloomFilter) (x y : Z) :
  uint32_of_int (m b) <> 0 ->
  0 <= x < 2 ^ 32 -> 0 <= y < 2 ^ 64 ->
  (AddUInt32 b x = AddBytes b (le_split 4 x) /\
   (forall b', ContainsUInt32 b' x = ContainsBytes b' (le_split 4 x)) /\
   List.length (le_split 4 x) = 4%nat /\ Uint (le_split 4 x) = x) /\
  (AddUInt64 b y = AddBytes b (le_split 8 y) /\
   (forall b', ContainsUInt64 b' y = ContainsBytes b' (le_split 8 y)) /\
   List.length (le_split 8 y) = 8%nat /\ Uint (le_split 8 y) = y) /\
  (exists b', AddUInt32 b x = Ok b' /\ ContainsUInt32 b' x = Ok true) /\
  (exists b', AddUInt64 b y = Ok b' /\ ContainsUInt64 b' y = Ok true).
Proof.
  intros Hm Hx Hy. split; [|split; [|split]].
  - unfold AddUInt32, ContainsUInt32. rewrite PutUint32_le_split.
    repeat split. rewrite <- PutUint32_le_split. apply Uint_PutUint32, Hx.
  - unfold AddUInt64, ContainsUInt64. rewrite PutUint64_le_split.
    repeat split. rewrite <- PutUint64_le_split. apply Uint_PutUint64, Hy.
  - apply add_then_contains. exact Hm.
  - apply add_then_contains. exact Hm.
Qed.

Lemma C8_integer_wrappers_witness :
  uint32_of_int (m (NewMK 959 7)) <> 0 /\
  (exists b', AddUInt32 (NewMK 959 7) 2147483647 = Ok b' /\
              ContainsUInt32 b' 2147483647 = Ok true) /\
  (exists b', AddUInt64 (NewMK 959 7) 9223372036854775807 = Ok b' /\
              ContainsUInt64 b' 9223372036854775807 = Ok true).
Proof.
  split; [vm_compute; discriminate|].
  apply (C8_integer_wrappers (NewMK 959 7) 2147483647 9223372036854775807).
  - vm_compute; discriminate.
  - vm_compute; split; [discriminate|reflexivity].
  - vm_compute; split; [discriminate|reflexivity].
Defined.

(** ** C10 *)

(** C10 as stated fails twice.  [NewMK(0, 0)] never enters either loop: the
    insertion returns and the query returns true, with no division.  And
    [m >= 1] does not make the operations total: with [m = 2 * 2^32] and
    [k = 1] both panic. *)
Lemma C10_counterexample :
  (AddBytes (NewMK 0 0) [] = Ok (NewMK 0 0) /\
   ContainsBytes (NewMK 0 0) [] = Ok true) /\
  (1 <= m (NewMK 8589934592 1) /\
   AddBytes (NewMK 8589934592 1) [] = Panic DivideByZero /\
   ContainsBytes (NewMK 8589934592 1) [] = Panic DivideByZero).
Proof. vm_compute. repeat split; discriminate. Qed.

(** C10 (amended): on a filter built by [NewMK 0 k] with [k >= 1], every call
    of [AddBytes] or [ContainsBytes] panics with a division by zero, since
    [kiMiHash] takes the remainder by [uint32(m) = 0]; on a filter whose [m]
    has low 32 bits that are not all zero (every [1 <= m <= 2^32 - 1] is
    such) that branch is not reached and both operations return. *)
Theorem C10_degenerate_m (kk : Z) (b : BloomFilter) (value : list byte) :
  1 <= kk -> uint32_of_int (m b) <> 0 ->
  (forall h, kiMiHash (NewMK 0 kk) value h = Panic DivideByZero) /\
  AddBytes (NewMK 0 kk) value = Panic DivideByZero /\
  ContainsBytes (NewMK 0 kk) value = Panic DivideByZero /\
  (forall h, exists index, kiMiHash b value h = Ok index) /\
  (exists b', AddBytes b value = Ok b') /\
  (exists res, ContainsBytes b value = Ok res).
Proof.
  intros Hk Hm.
  split; [intros h; apply kiMiHash_panic; reflexivity|].
  split; [apply AddBytes_panic; [reflexivity|exact Hk]|].
  split; [apply ContainsBytes_panic; [reflexivity|exact Hk]|].
  split; [intros h; eexists; apply kiMiHash_ok; exact Hm|].
  split; eexists; [apply AddBytes_ok|apply ContainsBytes_ok]; exact Hm.
Qed.

Lemma C10_degenerate_m_witness :
  1 <= 2 /\ uint32_of_int (m (NewMK 64 2)) <> 0 /\
  AddBytes (NewMK 0 2) [] = Panic DivideByZero /\
  exists b', AddBytes (NewMK 64 2) [] = Ok b'.
Proof.
  split; [lia|]. split; [vm_compute; discriminate|].
  destruct (C10_degenerate_m 2 (NewMK 64 2) []) as [_ [H1 [_ [_ [H2 _]]]]].
  - lia.
  - vm_compute; discriminate.
  - split; [exact H1|exact H2].
Defined.

Lemma New_clamps (float64 : Type) (CalcOptimalMK : Z -> float64 -> Z * Z)
      (n : Z) (falsePositiveRate : float64) :
  New float64 CalcOptimalMK n falsePositiveRate =
  NewMK (Z.min (Z.max (fst (CalcOptimalMK n falsePositiveRate)) 1) MaxInt32)
        (Z.max (snd (CalcOptimalMK n falsePositiveRate)) 1).
Proof.
  unfold New. destruct (CalcOptimalMK n falsePositiveRate) as [m0 k0].
  cbn [fst snd]. rewrite Z.gtb_ltb. f_equal.
  - destruct (Z.ltb_spec m0 1).
    + rewrite Z.max_r by lia.
      destruct (Z.ltb_spec MaxInt32 1); unfold MaxInt32 in *; lia.
    + rewrite Z.max_l by lia. destruct (Z.ltb_spec MaxInt32 m0); lia.
  - destruct (Z.ltb_spec k0 1); lia.
Qed.

(** ** C4 *)

(** C4: whatever integers the sizing function delivers for [n] and the rate,
    [New] returns an empty filter with [1 <= m <= 2^31 - 1] and [k >= 1]: [m]
    is 1 when the computed one is below 1 and [2^31 - 1] when it is above
    that, [k] is 1 when the computed one is below 1, and both are the computed
    ones otherwise; on that filter, [New 0 p] included, an insertion returns
    and the query of the inserted value that follows returns true. *)
Theorem C4_construction_clamps (float64 : Type)
        (CalcOptimalMK : Z -> float64 -> Z * Z)
        (n : Z) (falsePositiveRate : float64) (value : list byte) :
  let computed := CalcOptimalMK n falsePositiveRate in
  let b := New float64 CalcOptimalMK n falsePositiveRate in
  1 <= m b <= MaxInt32 /\ 1 <= k b /\ bucket b = 0 /\
  m b = Z.min (Z.max (fst computed) 1) MaxInt32 /\
  k b = Z.max (snd computed) 1 /\
  (exists b', AddBytes b value = Ok b' /\ ContainsBytes b' value = Ok true) /\
  (exists b', AddBytes (New float64 CalcOptimalMK 0 falsePositiveRate) value
              = Ok b' /\
              ContainsBytes b' value = Ok true).
Proof.
  intros computed b.
  pose proof (New_clamps float64 CalcOptimalMK n falsePositiveRate) as E.
  pose proof (New_clamps float64 CalcOptimalMK 0 falsePositiveRate) as E0.
  fold b in E. fold computed in E.
  assert (Hm : 1 <= m b <= MaxInt32)
    by (rewrite E; simpl m; unfold MaxInt32; lia).
  split; [exact Hm|]. rewrite E at 1 2 3 4.
  split; [simpl k; lia|]. split; [reflexivity|].
  split; [reflexivity|]. split; [reflexivity|].
  split; apply add_then_contains.
  - unfold MaxInt32 in Hm. rewrite uint32_of_int_small; lia.
  - rewrite E0. simpl m. unfold MaxInt32.
    rewrite uint32_of_int_small; lia.
Qed.

Lemma C4_construction_clamps_witness :
  m (New unit sample_sizing 0 tt) = 1 /\
  k (New unit sample_sizing 0 tt) = 1 /\
  m (New unit sample_sizing 2147483647 tt) = 2147483647 /\
  k (New unit sample_sizing 2147483647 tt) = 10 /\
  exists b',
    AddBytes (New unit sample_sizing 0 tt)
             (list_byte_of_string "AnotherValue") = Ok b' /\
    ContainsBytes b' (list_byte_of_string "AnotherValue") = Ok true.
Proof.
  split; [reflexivity|]. split; [reflexivity|].
  split; [reflexivity|]. split; [reflexivity|].
  apply (C4_construction_clamps unit sample_sizing 0 tt
           (list_byte_of_string "AnotherValue")).
Defined.

(** * Further properties of the operations *)

(** ** Filters without probes, and when the operations panic *)

Lemma set_bucket_same (b : BloomFilter) : set_bucket b (bucket b) = b.
Proof. destruct b. reflexivity. Qed.

Lemma AddBytes_no_probes (b : BloomFilter) (value : list byte) :
  k b < 1 -> AddBytes b value = Ok b.
Proof.
  intros Hk. unfold AddBytes, for_range.
  replace (Z.to_nat (k b)) with 0%nat by lia. simpl.
  rewrite set_bucket_same. reflexivity.
Qed.

Lemma ContainsBytes_no_probes (b : BloomFilter) (value : list byte) :
  k b < 1 -> ContainsBytes b value = Ok true.
Proof.
  intros Hk. unfold ContainsBytes, for_range.
  replace (Z.to_nat (k b)) with 0%nat by lia. reflexivity.
Qed.

(** X1: a filter with [k < 1] runs neither loop, whatever [m] is (zero
    included): an insertion returns the filter unchanged and every query
    answers true. *)
Theorem no_probes_accepts_everything
        (b : BloomFilter) (value other : list byte) :
  k b < 1 ->
  AddBytes b value = Ok b /\ ContainsBytes b other = Ok true /\
  (forall s, AddString b s = Ok b) /\
  (forall s, ContainsString b s = Ok true).
Proof.
  intros Hk. split; [apply AddBytes_no_probes; exact Hk|].
  split; [apply ContainsBytes_no_probes; exact Hk|].
  split; [intros s; apply AddBytes_no_probes; exact Hk|].
  intros s. apply ContainsBytes_no_probes. exact Hk.
Qed.

Lemma no_probes_accepts_everything_witness :
  k (NewMK 0 0) < 1 /\
  AddBytes (NewMK 0 0) [] = Ok (NewMK 0 0) /\
  ContainsBytes (NewMK 0 0) (list_byte_of_string "x") = Ok true.
Proof.
  split; [simpl; lia|].
  destruct (no_probes_accepts_everything
              (NewMK 0 0) [] (list_byte_of_string "x")) as [H1 [H2 _]].
  - simpl; lia.
  - split; [exact H1|exact H2].
Defined.

(** X2: the only panic of [AddBytes] and [ContainsBytes] is the division by
    zero, and it happens exactly when [uint32(m)] is zero and [k >= 1]; in
    every other case both return.  The bit index is never negative. *)
Theorem panic_exactly_when (b : BloomFilter) (value : list byte) :
  (AddBytes b value = Panic DivideByZero <->
   uint32_of_int (m b) = 0 /\ 1 <= k b) /\
  (ContainsBytes b value = Panic DivideByZero <->
   uint32_of_int (m b) = 0 /\ 1 <= k b) /\
  ((exists b', AddBytes b value = Ok b') <->
   uint32_of_int (m b) <> 0 \/ k b < 1) /\
  ((exists res, ContainsBytes b value = Ok res) <->
   uint32_of_int (m b) <> 0 \/ k b < 1) /\
  AddBytes b value <> Panic NegativeBitIndex /\
  ContainsBytes b value <> Panic NegativeBitIndex.
Proof.
  destruct (Z.eq_dec (uint32_of_int (m b)) 0) as [Hz|Hnz].
  - destruct (Z_lt_le_dec (k b) 1) as [Hk|Hk].
    + rewrite AddBytes_no_probes, ContainsBytes_no_probes by exact Hk.
      repeat split; intros; try discriminate; try lia; eauto.
    + rewrite AddBytes_panic, ContainsBytes_panic by assumption.
      repeat split; intros;
        repeat match goal with
               | H : exists _, _ |- _ => destruct H
               | H : _ \/ _ |- _ => destruct H
               end;
        try discriminate; try contradiction; try lia; auto.
  - rewrite AddBytes_ok, ContainsBytes_ok by exact Hnz.
    repeat split; intros;
      repeat match goal with
             | H : _ /\ _ |- _ => destruct H
             end;
      try discriminate; try contradiction; eauto.
Qed.

(** ** A positive answer is never lost *)

Lemma positive_kept_by_AddBytes (b b' : BloomFilter) (value other : list byte) :
  ContainsBytes b value = Ok true ->
  AddBytes b other = Ok b' ->
  ContainsBytes b' value = Ok true.
Proof.
  intros Hc Hadd.
  destruct (AddBytes_fields _ _ _ Hadd) as [Em Ek].
  destruct (Z.eq_dec (uint32_of_int (m b)) 0) as [Hz|Hnz].
  - destruct (Z_lt_le_dec (k b) 1) as [Hk|Hk].
    + apply ContainsBytes_no_probes. lia.
    + rewrite ContainsBytes_panic in Hc by assumption. discriminate.
  - apply ContainsBytes_true_iff; [rewrite Em; exact Hnz|].
    intros i Hi. rewrite (probe_same_m b) by exact Em.
    apply (AddBytes_sets b b' other _ Hnz Hadd). left.
    apply (proj1 (ContainsBytes_true_iff b value Hnz) Hc). lia.
Qed.

(** X3: once [ContainsBytes] answers true for a value, it answers true after
    any sequence of insertions that returns, whether the value was ever
    inserted or not. *)
Theorem positive_answers_persist
        (others : list (list byte)) (b b2 : BloomFilter) (value : list byte) :
  ContainsBytes b value = Ok true ->
  AddMany b others = Ok b2 ->
  ContainsBytes b2 value = Ok true.
Proof.
  revert b. induction others as [|other rest IH]; intros b Hc Hmany.
  - simpl in Hmany. injection Hmany as <-. exact Hc.
  - simpl in Hmany. destruct (AddBytes b other) as [b1|p] eqn:Hadd;
      [|discriminate].
    simpl in Hmany. apply (IH b1); [|exact Hmany].
    apply (positive_kept_by_AddBytes b b1 value other Hc Hadd).
Qed.

Lemma positive_answers_persist_witness :
  ContainsBytes (mkBloomFilter 2 1 3) [] = Ok true /\
  AddMany (mkBloomFilter 2 1 3)
          [list_byte_of_string "a"; list_byte_of_string "b"]
  = Ok (mkBloomFilter 2 1 3) /\
  ContainsBytes (mkBloomFilter 2 1 3) [] = Ok true.
Proof.
  split; [vm_compute; reflexivity|]. split; [vm_compute; reflexivity|].
  apply (positive_answers_persist
           [list_byte_of_string "a"; list_byte_of_string "b"]
           (mkBloomFilter 2 1 3) (mkBloomFilter 2 1 3) []);
    vm_compute; reflexivity.
Defined.

(** X4: on a filter whose [uint32(m)] is not zero, [ContainsBytes] answers
    true for a value exactly when inserting that value changes nothing. *)
Theorem found_iff_insert_changes_nothing
        (b : BloomFilter) (value : list byte) :
  uint32_of_int (m b) <> 0 ->
  (ContainsBytes b value = Ok true <-> AddBytes b value = Ok b).
Proof.
  intros Hm. split.
  - intros Hc. rewrite AddBytes_ok by exact Hm.
    rewrite set_probes_already; [rewrite set_bucket_same; reflexivity|exact Hm|].
    intros i Hi.
    apply (proj1 (ContainsBytes_true_iff b value Hm) Hc). lia.
  - intros Hadd. apply ContainsBytes_true_iff; [exact Hm|].
    intros i Hi. apply (AddBytes_sets b b value _ Hm Hadd).
    right. exists i. split; [exact Hi|reflexivity].
Qed.

Lemma found_iff_insert_changes_nothing_witness :
  uint32_of_int (m (mkBloomFilter 2 1 3)) <> 0 /\
  (ContainsBytes (mkBloomFilter 2 1 3) [] = Ok true <->
   AddBytes (mkBloomFilter 2 1 3) [] = Ok (mkBloomFilter 2 1 3)).
Proof.
  split; [vm_compute; discriminate|].
  apply (found_iff_insert_changes_nothing (mkBloomFilter 2 1 3) []).
  vm_compute; discriminate.
Defined.

(** ** The filter after a run of insertions *)

Lemma AddMany_bits (values : list (list byte)) :
  forall b b2, uint32_of_int (m b) <> 0 ->
  AddMany b values = Ok b2 ->
  forall j,
    Z.testbit (bucket b2) j = true <->
    Z.testbit (bucket b) j = true \/
    exists value i, In value values /\ 0 <= i < k b /\ probe b value i = j.
Proof.
  induction values as [|value rest IH]; intros b b2 Hm Hmany j.
  - simpl in Hmany. injection Hmany as <-. split; [auto|].
    intros [H|[v [i [[] _]]]]. exact H.
  - simpl in Hmany.
    destruct (AddBytes b value) as [b1|p] eqn:Hadd; [|discriminate].
    simpl in Hmany.
    destruct (AddBytes_fields _ _ _ Hadd) as [Em Ek].
    assert (Hm1 : uint32_of_int (m b1) <> 0) by (rewrite Em; exact Hm).
    rewrite (IH b1 b2 Hm1 Hmany j).
    rewrite (AddBytes_sets b b1 value j Hm Hadd). rewrite Ek. split.
    + intros [[H|[i [Hi E]]]|[v [i [Hin [Hi E]]]]].
      * left. exact H.
      * right. exists value, i. split; [left; reflexivity|]. split; assumption.
      * right. exists v, i. split; [right; exact Hin|].
        split; [exact Hi|]. rewrite <- (probe_same_m b b1) by exact Em.
        exact E.
    + intros [H|[v [i [[<-|Hin] [Hi E]]]]].
      * left. left. exact H.
      * left. right. exists i. split; assumption.
      * right. exists v, i. split; [exact Hin|]. split; [exact Hi|].
        rewrite (probe_same_m b b1) by exact Em. exact E.
Qed.

Lemma filter_eq (b b' : BloomFilter) :
  m b = m b' -> k b = k b' ->
  (forall j, Z.testbit (bucket b) j = true <-> Z.testbit (bucket b') j = true) ->
  b = b'.
Proof.
  destruct b as [m1 k1 x1], b' as [m2 k2 x2]. simpl.
  intros -> -> Hbits. f_equal.
  apply Z.bits_inj. intros j. apply Bool.eq_iff_eq_true, Hbits.
Qed.

Lemma AddMany_no_probes (values : list (list byte)) (b : BloomFilter) :
  k b < 1 -> AddMany b values = Ok b.
Proof.
  intros Hk. induction values as [|value rest IH]; simpl.
  - reflexivity.
  - rewrite AddBytes_no_probes by exact Hk. simpl. exact IH.
Qed.

(** X5: the outcome of a run of insertions depends only on which values are
    inserted: two runs over the same set of values, in any order and with any
    repetitions, leave the same filter (or panic alike). *)
Theorem insertion_order_is_irrelevant
        (b : BloomFilter) (values values' : list (list byte)) :
  (forall value, In value values <-> In value values') ->
  AddMany b values = AddMany b values'.
Proof.
  intros Hsame.
  destruct (Z.eq_dec (uint32_of_int (m b)) 0) as [Hz|Hnz].
  - destruct (Z_lt_le_dec (k b) 1) as [Hk|Hk].
    + rewrite !AddMany_no_probes by exact Hk. reflexivity.
    + destruct values as [|v rest], values' as [|v' rest'].
      * reflexivity.
      * destruct (proj2 (Hsame v') (or_introl eq_refl)).
      * destruct (proj1 (Hsame v) (or_introl eq_refl)).
      * simpl. rewrite !AddBytes_panic by assumption. reflexivity.
  - destruct (AddMany_keeps values b Hnz) as [b2 [H2 [Em2 [Ek2 _]]]].
    destruct (AddMany_keeps values' b Hnz) as [b3 [H3 [Em3 [Ek3 _]]]].
    rewrite H2, H3. f_equal.
    apply filter_eq; [congruence|congruence|].
    intros j.
    rewrite (AddMany_bits values b b2 Hnz H2 j).
    rewrite (AddMany_bits values' b b3 Hnz H3 j).
    split; (intros [H|[v [i [Hin Hrest]]]]; [left; exact H|right]);
      exists v, i; (split; [apply Hsame; exact Hin|exact Hrest]).
Qed.

Lemma insertion_order_is_irrelevant_witness :
  AddMany (NewMK 64 2) [list_byte_of_string "a"; list_byte_of_string "b"] =
  AddMany (NewMK 64 2)
          [list_byte_of_string "b"; list_byte_of_string "a";
           list_byte_of_string "b"].
Proof.
  apply insertion_order_is_irrelevant.
  intros value. simpl. tauto.
Defined.

(** X6: on a filter whose [uint32(m)] is not zero, a run of insertions
    returns, and afterwards [ContainsBytes] answers true for every value of
    the run, wherever in the run it was inserted. *)
Theorem inserted_values_are_found
        (b : BloomFilter) (values : list (list byte)) (value : list byte) :
  uint32_of_int (m b) <> 0 -> In value values ->
  exists b2, AddMany b values = Ok b2 /\ ContainsBytes b2 value = Ok true.
Proof.
  intros Hm Hin.
  destruct (AddMany_keeps values b Hm) as [b2 [H2 [Em2 [Ek2 _]]]].
  exists b2. split; [exact H2|].
  apply ContainsBytes_true_iff; [rewrite Em2; exact Hm|].
  intros i Hi. rewrite (probe_same_m b b2) by exact Em2.
  apply (AddMany_bits values b b2 Hm H2). right.
  exists value, i. split; [exact Hin|]. split; [lia|reflexivity].
Qed.

Lemma inserted_values_are_found_witness :
  uint32_of_int (m (NewMK 959 7)) <> 0 /\
  exists b2,
    AddMany (NewMK 959 7)
            [list_byte_of_string "SomeValue";
             list_byte_of_string "AnotherValue"] = Ok b2 /\
    ContainsBytes b2 (list_byte_of_string "SomeValue") = Ok true.
Proof.
  split; [vm_compute; discriminate|].
  apply inserted_values_are_found.
  - vm_compute; discriminate.
  - left. reflexivity.
Defined.

(** X7: for a filter built by [NewMK] with [uint32(m)] not zero and then
    filled by a run of insertions, [ContainsBytes] answers true for a value
    exactly when each of its [k] indices is an index of some inserted value;
    so a false answer means the value was not inserted, and a false positive
    is a value whose indices are all covered by others. *)
Theorem positive_iff_indices_covered
        (mm kk : Z) (values : list (list byte)) (value : list byte) :
  uint32_of_int mm <> 0 ->
  exists b2,
    AddMany (NewMK mm kk) values = Ok b2 /\
    (ContainsBytes b2 value = Ok true <->
     forall i, 0 <= i < kk ->
       exists inserted i',
         In inserted values /\ 0 <= i' < kk /\
         kiMiHash (NewMK mm kk) inserted i' = kiMiHash (NewMK mm kk) value i) /\
    (ContainsBytes b2 value = Ok false -> ~ In value values).
Proof.
  intros Hm. set (b := NewMK mm kk).
  assert (Hb : uint32_of_int (m b) <> 0) by exact Hm.
  destruct (AddMany_keeps values b Hb) as [b2 [H2 [Em2 [Ek2 _]]]].
  exists b2. split; [exact H2|].
  assert (Hb2 : uint32_of_int (m b2) <> 0) by (rewrite Em2; exact Hb).
  assert (Hiff : ContainsBytes b2 value = Ok true <->
                 forall i, 0 <= i < kk ->
                   exists inserted i',
                     In inserted values /\ 0 <= i' < kk /\
                     kiMiHash b inserted i' = kiMiHash b value i).
  { rewrite (ContainsBytes_true_iff b2 value Hb2). rewrite Ek2.
    change (k b) with kk. split.
    - intros Hall i Hi. specialize (Hall i Hi).
      rewrite (probe_same_m b b2) in Hall by exact Em2.
      apply (AddMany_bits values b b2 Hb H2) in Hall.
      destruct Hall as [H0|[v [i' [Hin [Hi' E]]]]].
      + simpl in H0. rewrite Z.testbit_0_l in H0. discriminate.
      + exists v, i'. split; [exact Hin|]. split; [exact Hi'|].
        rewrite !kiMiHash_ok by exact Hb. f_equal. exact E.
    - intros Hall i Hi. destruct (Hall i Hi) as [v [i' [Hin [Hi' E]]]].
      rewrite !kiMiHash_ok in E by exact Hb. injection E as E.
      rewrite (probe_same_m b b2) by exact Em2.
      apply (AddMany_bits values b b2 Hb H2). right.
      exists v, i'. split; [exact Hin|]. split; [exact Hi'|exact E]. }
  split; [exact Hiff|].
  intros Hfalse Hin.
  assert (Htrue : ContainsBytes b2 value = Ok true).
  { apply Hiff. intros i Hi. exists value, i.
    split; [exact Hin|]. split; [exact Hi|reflexivity]. }
  rewrite Htrue in Hfalse. discriminate.
Qed.

Lemma positive_iff_indices_covered_witness :
  uint32_of_int 64 <> 0 /\
  exists b2,
    AddMany (NewMK 64 2) [list_byte_of_string "a"] = Ok b2 /\
    (ContainsBytes b2 (list_byte_of_string "b") = Ok false ->
     ~ In (list_byte_of_string "b") [list_byte_of_string "a"]).
Proof.
  split; [vm_compute; discriminate|].
  destruct (positive_iff_indices_covered
              64 2 [list_byte_of_string "a"] (list_byte_of_string "b"))
    as [b2 [H2 [_ Hfalse]]].
  - vm_compute; discriminate.
  - exists b2. split; [exact H2|exact Hfalse].
Defined.

(** ** How much of the bit array is used *)

Lemma AddBytes_below (b b' : BloomFilter) (value : list byte) :
  0 <= bucket b < 2 ^ uint32_of_int (m b) ->
  AddBytes b value = Ok b' ->
  m b' = m b /\ k b' = k b /\ 0 <= bucket b' < 2 ^ uint32_of_int (m b).
Proof.
  intros Hb Hadd. destruct (AddBytes_fields _ _ _ Hadd) as [Em Ek].
  split; [exact Em|]. split; [exact Ek|].
  destruct (Z.eq_dec (uint32_of_int (m b)) 0) as [Hz|Hnz].
  - destruct (Z_lt_le_dec (k b) 1) as [Hk|Hk].
    + rewrite AddBytes_no_probes in Hadd by exact Hk.
      injection Hadd as <-. exact Hb.
    + rewrite AddBytes_panic in Hadd by assumption. discriminate.
  - rewrite AddBytes_ok in Hadd by exact Hnz. injection Hadd as <-.
    simpl bucket. apply set_probes_below; [exact Hnz|lia|exact Hb].
Qed.

Lemma AddMany_below (values : list (list byte)) :
  forall b b2,
    0 <= bucket b < 2 ^ uint32_of_int (m b) ->
    AddMany b values = Ok b2 ->
    m b2 = m b /\ k b2 = k b /\ 0 <= bucket b2 < 2 ^ uint32_of_int (m b).
Proof.
  induction values as [|value rest IH]; intros b b2 Hb Hmany.
  - simpl in Hmany. injection Hmany as <-. auto.
  - simpl in Hmany.
    destruct (AddBytes b value) as [b1|p] eqn:Hadd; [|discriminate].
    simpl in Hmany.
    destruct (AddBytes_below b b1 value Hb Hadd) as [Em [Ek Hb1]].
    rewrite <- Em in Hb1.
    destruct (IH b1 b2 Hb1 Hmany) as [Em2 [Ek2 Hb2]].
    rewrite Em in Hb2. split; [congruence|]. split; [congruence|exact Hb2].
Qed.

(** X8: whatever is inserted into a filter built by [NewMK m k], the
    parameters stay [m] and [k] and the bit storage stays a non-negative
    number below [2 ^ uint32(m)]: no bit at or above [uint32(m)] is ever
    set, also when [m] itself is larger than [2^32]. *)
Theorem storage_stays_within_uint32_m
        (mm kk : Z) (values : list (list byte)) (b2 : BloomFilter) :
  AddMany (NewMK mm kk) values = Ok b2 ->
  m b2 = mm /\ k b2 = kk /\
  0 <= bucket b2 < 2 ^ uint32_of_int mm /\
  (forall j, uint32_of_int mm <= j -> Z.testbit (bucket b2) j = false).
Proof.
  intros Hmany.
  assert (H0 : 0 <= bucket (NewMK mm kk) < 2 ^ uint32_of_int (m (NewMK mm kk))).
  { simpl. split; [lia|]. apply Z.pow_pos_nonneg; [lia|].
    apply wrap32_range. }
  destruct (AddMany_below values _ _ H0 Hmany) as [Em [Ek Hb]].
  simpl in Em, Ek, Hb.
  split; [exact Em|]. split; [exact Ek|]. split; [exact Hb|].
  intros j Hj.
  pose proof (wrap32_range mm) as Hr. unfold uint32_of_int in *.
  destruct (Z.eq_dec (bucket b2) 0) as [->|Hne]; [apply Z.testbit_0_l|].
  apply Z.bits_above_log2; [lia|].
  assert (Z.log2 (bucket b2) < wrap32 mm)
    by (apply Z.log2_lt_pow2; lia).
  lia.
Qed.

Lemma storage_stays_within_uint32_m_witness :
  AddMany (NewMK 4294967301 3) [list_byte_of_string "a"] =
  Ok (mkBloomFilter 4294967301 3 7) /\
  0 <= 7 < 2 ^ uint32_of_int 4294967301.
Proof.
  assert (E : AddMany (NewMK 4294967301 3) [list_byte_of_string "a"] =
              Ok (mkBloomFilter 4294967301 3 7)) by (vm_compute; reflexivity).
  split; [exact E|].
  apply (storage_stays_within_uint32_m _ _ _ _ E).
Defined.

(** ** Values whose indices all coincide *)

Lemma AddBytes_one_index (b : BloomFilter) (value : list byte) (p : Z) :
  uint32_of_int (m b) <> 0 -> 1 <= k b ->
  (forall i, probe b value i = p) ->
  AddBytes b value = Ok (set_bucket b (Z.setbit (bucket b) p)).
Proof.
  intros Hm Hk Hp. rewrite AddBytes_ok by exact Hm.
  assert (H0 : 0 <= p)
    by (rewrite <- (Hp 0); apply (probe_range b value 0 Hm)).
  f_equal. unfold set_bucket. f_equal.
  apply Z.bits_inj. intros j. apply Bool.eq_iff_eq_true.
  rewrite set_probes_testbit by exact Hm.
  rewrite Z.setbit_iff by exact H0. split.
  - intros [H|[i [_ E]]]; [right; exact H|left].
    rewrite <- E. symmetry. apply Hp.
  - intros [E|H]; [right|left; exact H].
    exists 0. split; [lia|]. rewrite Hp. exact E.
Qed.

(** X9: a filter with [uint32(m) = 1] (the one-bit filter [New] builds when
    the computed [m] is below 1) and [k >= 1] is full after its first
    insertion: the insertion sets bit 0 and from then on [ContainsBytes]
    answers true for every value. *)
Theorem one_bit_filter_saturates
        (b : BloomFilter) (value other : list byte) :
  uint32_of_int (m b) = 1 -> 1 <= k b ->
  exists b',
    AddBytes b value = Ok b' /\
    bucket b' = Z.setbit (bucket b) 0 /\
    ContainsBytes b' other = Ok true.
Proof.
  intros Hm Hk.
  assert (Hnz : uint32_of_int (m b) <> 0) by lia.
  assert (Hp : forall bb v i, m bb = m b -> probe bb v i = 0).
  { intros bb v i E. unfold probe. rewrite E, Hm. apply Z.mod_1_r. }
  eexists. split; [apply (AddBytes_one_index b value 0 Hnz Hk)|].
  { intros i. apply Hp. reflexivity. }
  split; [reflexivity|].
  apply ContainsBytes_true_iff; [exact Hnz|].
  intros i Hi. rewrite Hp by reflexivity. simpl bucket.
  apply Z.setbit_eq. lia.
Qed.

Lemma one_bit_filter_saturates_witness :
  uint32_of_int (m (NewMK 1 1)) = 1 /\ 1 <= k (NewMK 1 1) /\
  exists b',
    AddBytes (NewMK 1 1) (list_byte_of_string "AnotherValue") = Ok b' /\
    bucket b' = Z.setbit 0 0 /\
    ContainsBytes b' (list_byte_of_string "NeverInserted") = Ok true.
Proof.
  split; [reflexivity|]. split; [simpl; lia|].
  apply (one_bit_filter_saturates (NewMK 1 1)); [reflexivity|simpl; lia].
Defined.

(** X10: when the CRC-32 of a value is 0, as it is for the empty byte
    sequence, the double hashing degenerates: every probe number gives the
    index [hash1 mod uint32(m)], and an insertion sets that single bit
    however large [k] is. *)
Theorem zero_second_hash_gives_one_index
        (b : BloomFilter) (value : list byte) :
  hash2 value = 0 -> uint32_of_int (m b) <> 0 -> 1 <= k b ->
  (forall h, kiMiHash b value h = Ok (hash1 value mod uint32_of_int (m b))) /\
  AddBytes b value =
  Ok (set_bucket b
        (Z.setbit (bucket b) (hash1 value mod uint32_of_int (m b)))).
Proof.
  intros H2 Hm Hk.
  assert (Hp : forall i, probe b value i = hash1 value mod uint32_of_int (m b)).
  { intros i. unfold probe. rewrite H2. unfold mul32, add32.
    rewrite Z.mul_0_l. change (wrap32 0) with 0. rewrite Z.add_0_r.
    rewrite wrap32_small by apply hash1_range. reflexivity. }
  split.
  - intros h. rewrite kiMiHash_ok by exact Hm. f_equal. apply Hp.
  - apply AddBytes_one_index; assumption.
Qed.

Lemma zero_second_hash_gives_one_index_witness :
  hash2 [] = 0 /\ uint32_of_int (m (NewMK 64 5)) <> 0 /\ 1 <= k (NewMK 64 5) /\
  AddBytes (NewMK 64 5) [] =
  Ok (set_bucket (NewMK 64 5)
        (Z.setbit 0 (hash1 [] mod uint32_of_int 64))).
Proof.
  split; [vm_compute; reflexivity|].
  split; [vm_compute; discriminate|]. split; [simpl; lia|].
  apply (zero_second_hash_gives_one_index (NewMK 64 5) []).
  - vm_compute; reflexivity.
  - vm_compute; discriminate.
  - simpl; lia.
Defined.

(** ** Only 32 bits of [m] and of the probe number count *)

Lemma wrap32_add_multiple (x c : Z) : wrap32 (x + c * 2 ^ 32) = wrap32 x.
Proof. unfold wrap32. apply Z_mod_plus_full. Qed.

(** X11: [kiMiHash] sees [m] and the probe number through [uint32] only:
    adding a multiple of [2^32] to either changes nothing, and an index it
    returns is below [2^32] and below [uint32(m)].  So probes repeat with
    period [2^32] and a filter never touches more than [2^32 - 1] bits. *)
Theorem index_uses_low_32_bits
        (b : BloomFilter) (value : list byte) (h c d : Z) :
  kiMiHash (mkBloomFilter (m b + c * 2 ^ 32) (k b) (bucket b)) value
           (h + d * 2 ^ 32)
  = kiMiHash b value h /\
  (forall index, kiMiHash b value h = Ok index ->
                 0 <= index < uint32_of_int (m b) /\ index < 2 ^ 32 - 1).
Proof.
  split.
  - unfold kiMiHash, uint32_of_int. simpl m.
    rewrite !wrap32_add_multiple. reflexivity.
  - intros index H.
    destruct (Z.eq_dec (uint32_of_int (m b)) 0) as [Hz|Hnz].
    + rewrite kiMiHash_panic in H by exact Hz. discriminate.
    + rewrite kiMiHash_ok in H by exact Hnz. injection H as <-.
      pose proof (probe_range b value h Hnz) as Hr.
      pose proof (wrap32_range (m b)) as Hw. unfold uint32_of_int in *.
      lia.
Qed.

(** ** Filters built by [New] *)

Lemma fresh_answers_false (mm kk : Z) (value : list byte) :
  uint32_of_int mm <> 0 -> 1 <= kk ->
  ContainsBytes (NewMK mm kk) value = Ok false.
Proof.
  intros Hm Hk.
  destruct (ContainsBytes (NewMK mm kk) value) as [[|]|p] eqn:E.
  - pose proof (proj1 (ContainsBytes_true_iff (NewMK mm kk) value Hm) E 0)
      as E0.
    simpl in E0. rewrite Z.testbit_0_l in E0.
    assert (false = true) by (apply E0; lia). discriminate.
  - reflexivity.
  - rewrite ContainsBytes_ok in E by exact Hm. discriminate.
Qed.

(** X12: whatever integers the sizing function delivers, the filter [New]
    returns answers false to [ContainsString] for every string, and after
    [AddString s] it answers true for [s]. *)
Theorem New_filter_is_empty_then_finds
        (float64 : Type) (CalcOptimalMK : Z -> float64 -> Z * Z)
        (n : Z) (falsePositiveRate : float64) (s other : string) :
  ContainsString (New float64 CalcOptimalMK n falsePositiveRate) other
  = Ok false /\
  exists b', AddString (New float64 CalcOptimalMK n falsePositiveRate) s
             = Ok b' /\
             ContainsString b' s = Ok true.
Proof.
  rewrite New_clamps.
  set (mm := Z.min _ _). set (kk := Z.max _ _).
  assert (Hmm : 1 <= mm < 2 ^ 32) by (unfold mm, MaxInt32; lia).
  assert (Hm : uint32_of_int mm <> 0)
    by (rewrite uint32_of_int_small by exact Hmm; lia).
  split.
  - apply fresh_answers_false; [exact Hm|unfold kk; lia].
  - apply add_then_contains. exact Hm.
Qed.

(** ** The two integer widths *)

Lemma shiftr_small (x s : Z) :
  0 <= x < 2 ^ 32 -> 32 <= s -> Z.shiftr x s = 0.
Proof.
  intros Hx Hs. rewrite Z.shiftr_div_pow2 by lia.
  apply Z.div_small. split; [lia|].
  apply Z.lt_le_trans with (2 ^ 32); [lia|].
  apply Z.pow_le_mono_r; lia.
Qed.

(** X13: the 64-bit wrappers hash a number under another key than the 32-bit
    ones: the 8-byte encoding is never the 4-byte encoding of any number, and
    for a number below [2^32] it is the 4-byte encoding followed by four zero
    bytes, so [AddUInt64 x] inserts that longer sequence. *)
Theorem widths_use_different_keys (b : BloomFilter) (x y : Z) :
  0 <= x < 2 ^ 32 ->
  LittleEndian.PutUint64 y <> LittleEndian.PutUint32 x /\
  LittleEndian.PutUint64 x =
  LittleEndian.PutUint32 x ++ [byte.of_Z 0; byte.of_Z 0; byte.of_Z 0; byte.of_Z 0] /\
  AddUInt64 b x =
  AddBytes b (LittleEndian.PutUint32 x
              ++ [byte.of_Z 0; byte.of_Z 0; byte.of_Z 0; byte.of_Z 0]) /\
  ContainsUInt64 b x =
  ContainsBytes b (LittleEndian.PutUint32 x
                   ++ [byte.of_Z 0; byte.of_Z 0; byte.of_Z 0; byte.of_Z 0]).
Proof.
  intros Hx.
  assert (E : LittleEndian.PutUint64 x =
              LittleEndian.PutUint32 x
              ++ [byte.of_Z 0; byte.of_Z 0; byte.of_Z 0; byte.of_Z 0]).
  { unfold LittleEndian.PutUint64, LittleEndian.PutUint32. simpl app.
    rewrite (shiftr_small x 32), (shiftr_small x 40), (shiftr_small x 48),
      (shiftr_small x 56) by lia.
    reflexivity. }
  split.
  - intros H. apply (f_equal (@List.length byte)) in H. discriminate.
  - split; [exact E|]. unfold AddUInt64, ContainsUInt64. rewrite E.
    split; reflexivity.
Qed.

Lemma widths_use_different_keys_witness :
  0 <= 123 < 2 ^ 32 /\
  AddUInt64 (NewMK 959 7) 123 =
  AddBytes (NewMK 959 7)
           (LittleEndian.PutUint32 123
            ++ [byte.of_Z 0; byte.of_Z 0; byte.of_Z 0; byte.of_Z 0]).
Proof.
  split; [lia|].
  apply (widths_use_different_keys (NewMK 959 7) 123 0). lia.
Defined.
